(** * url-shortcut: the code -> URL mapping service of [main.py]

    A shallow embedding of the FastAPI application in [main.py]: the
    [urls] table kept by SQLite, the five request handlers that read and
    write it, the order in which the application registers its routes,
    and the properties of the create / resolve / update / delete / list
    contract that follow from them.

    Conventions.
    - A Python [str] is a [string]: the sequence of bytes of its UTF-8
      encoding, which is what SQLite stores in a TEXT column and what its
      default (BINARY) collation compares.  A [str] that has no UTF-8
      encoding (a lone surrogate) is outside the model.
    - The database file is the value of type [table] that is threaded
      through the handlers; a connection is a [session] on top of it.
    - A handler either returns a value or raises; the framework turns
      both into an HTTP [response]. *)

From Stdlib Require Import ZArith Ascii.
From stdpp Require Import gmap strings list sorting pretty.

Open Scope Z_scope.

(** ** Python values and exceptions *)

Module Py.

(** The exceptions that can come out of a handler body. *)
Inductive exn :=
| IntegrityError (msg : string)      (* sqlite3.IntegrityError *)
| ProgrammingError                   (* sqlite3: parameter of unsupported type *)
| OverflowError                      (* Python int too large for SQLite INTEGER *)
| KeyError (key : string)
| HTTPException (status_code : Z) (detail : string).

(** A decoded JSON value, as the framework hands it to a handler whose
    body parameter is a plain [dict].  Numbers with a fraction or an
    exponent (Python floats) are not modelled. *)
#[warnings="-register-all"]
Inductive json :=
| JNull
| JBool (b : bool)
| JInt (n : Z)
| JStr (s : string)
| JArr (items : list json)
| JObj (fields : gmap string json).

(** [d[key]] on a [dict] with string keys. *)
Definition getitem (d : gmap string json) (key : string) : exn + json :=
  match d !! key with
  | Some v => inr v
  | None => inl (KeyError key)
  end.

End Py.

(** ** SQLite: the [urls] table *)

Module Sqlite.
Import Py.

(** What the [sqlite3] module binds to a [?] placeholder. *)
Inductive sqlval :=
| SqlNull
| SqlInteger (n : Z)
| SqlText (s : string).

Definition adapt (v : json) : exn + sqlval :=
  match v with
  | JNull => inr SqlNull
  | JBool b => inr (SqlInteger (if b then 1 else 0))
  | JInt n =>
      if bool_decide (- 2 ^ 63 <= n < 2 ^ 63) then inr (SqlInteger n)
      else inl OverflowError
  | JStr s => inr (SqlText s)
  | JArr _ | JObj _ => inl ProgrammingError
  end.

(** TEXT affinity of a column: a number is stored as its decimal text,
    NULL stays NULL ([None]). *)
Definition text_affinity (v : sqlval) : option string :=
  match v with
  | SqlNull => None
  | SqlInteger n => Some (pretty n)
  | SqlText s => Some s
  end.

(** One row of
    [CREATE TABLE urls (code TEXT PRIMARY KEY, url TEXT NOT NULL)]. *)
Record row := Row { code : string; url : string }.

(** The table is the list of its rows, oldest first.  Nothing in the
    type keeps two rows from carrying the same code: that is the job of
    the PRIMARY KEY check in [insert_urls]. *)
Abbreviation table := (list row).

Global Instance row_eq_dec : EqDecision row.
Proof. solve_decision. Defined.

Definition has_code (c : string) (r : row) : Prop := code r = c.

Global Instance has_code_dec c r : Decision (has_code c r).
Proof. unfold has_code. apply _. Defined.

Definition codes (t : table) : list string := code <$> t.

(** [INSERT INTO urls (code, url) VALUES (?, ?)] *)
Definition insert_urls (c u : string) (t : table) : exn + table :=
  if decide (c ∈ codes t)
  then inl (IntegrityError "UNIQUE constraint failed: urls.code")
  else inr (t ++ [Row c u]).

Definition set_url (c u : string) (r : row) : row :=
  if decide (has_code c r) then Row (code r) u else r.

(** [UPDATE urls SET url = ? WHERE code = ?]; the second component is
    [cursor.rowcount].  The NOT NULL constraint is checked on the rows
    the statement touches, and a violation leaves the table as it was. *)
Definition update_urls (v : sqlval) (c : string) (t : table)
  : exn + (table * Z) :=
  let hits := filter (has_code c) t in
  match text_affinity v with
  | Some u => inr (set_url c u <$> t, Z.of_nat (length hits))
  | None =>
      match hits with
      | [] => inr (t, 0)
      | _ :: _ => inl (IntegrityError "NOT NULL constraint failed: urls.url")
      end
  end.

(** [DELETE FROM urls WHERE code = ?], with [cursor.rowcount]. *)
Definition delete_urls (c : string) (t : table) : table * Z :=
  (filter (λ r, ¬ has_code c r) t,
   Z.of_nat (length (filter (has_code c) t))).

(** [SELECT url FROM urls WHERE code = ?] followed by [fetchone()]:
    the one-column row found first, or [None]. *)
Definition select_url (c : string) (t : table) : option string :=
  url <$> head (filter (has_code c) t).

(** The BINARY collation: [memcmp] on the common prefix, then the
    shorter string first. *)
Definition code_le (r1 r2 : row) : Prop :=
  String.leb (code r1) (code r2) = true.

Global Instance code_le_dec r1 r2 : Decision (code_le r1 r2).
Proof. unfold code_le. apply _. Defined.

(** [SELECT code, url FROM urls ORDER BY code] followed by [fetchall()]. *)
Definition select_all_order_by_code (t : table) : list row :=
  merge_sort code_le t.

(** *** Connections

    [sqlite3] opens a transaction in front of the first INSERT, UPDATE
    or DELETE of a connection; what the statement wrote stays in the
    connection until [commit], and [close] throws away what was not
    committed. *)
Record session := Session { disk : table; pending : option table }.

Definition connect (DATABASE : table) : session := Session DATABASE None.

Definition view (s : session) : table := default (disk s) (pending s).

Definition commit_session (s : session) : session := Session (view s) None.

Definition close (s : session) : table := disk s.

(** Code that runs on an open connection: it may change the session and
    either yields a value or raises. *)
Definition db_op (A : Type) : Type := session → (exn + A) * session.

Definition ret {A} (a : A) : db_op A := λ s, (inr a, s).

Definition raise {A} (e : exn) : db_op A := λ s, (inl e, s).

Definition bind {A B} (m : db_op A) (k : A → db_op B) : db_op B :=
  λ s, match m s with
       | (inr a, s') => k a s'
       | (inl e, s') => (inl e, s')
       end.

(** [try: m except ...: h] *)
Definition try_except {A} (m : db_op A) (h : exn → db_op A) : db_op A :=
  λ s, match m s with
       | (inr a, s') => (inr a, s')
       | (inl e, s') => h e s'
       end.

(** [cursor.execute("INSERT ...", (c, u))] *)
Definition execute_insert (c u : string) : db_op unit :=
  λ s, match insert_urls c u (view s) with
       | inr t' => (inr (), Session (disk s) (Some t'))
       | inl e => (inl e, Session (disk s) (Some (view s)))
       end.

(** [cursor.execute("UPDATE ...", (new_url, c))], yielding
    [cursor.rowcount]. *)
Definition execute_update (new_url : json) (c : string) : db_op Z :=
  λ s, match adapt new_url with
       | inl e => (inl e, s)
       | inr v =>
           match update_urls v c (view s) with
           | inr (t', n) => (inr n, Session (disk s) (Some t'))
           | inl e => (inl e, Session (disk s) (Some (view s)))
           end
       end.

(** [cursor.execute("DELETE ...", (c,))], yielding [cursor.rowcount]. *)
Definition execute_delete (c : string) : db_op Z :=
  λ s, let '(t', n) := delete_urls c (view s) in
       (inr n, Session (disk s) (Some t')).

(** [cursor.execute("SELECT url ...", (c,)); cursor.fetchone()] *)
Definition fetchone_url (c : string) : db_op (option string) :=
  λ s, (inr (select_url c (view s)), s).

(** [cursor.execute("SELECT code, url ... ORDER BY code");
    cursor.fetchall()] *)
Definition fetchall_by_code : db_op (list row) :=
  λ s, (inr (select_all_order_by_code (view s)), s).

(** [conn.commit()] *)
Definition commit : db_op unit := λ s, (inr (), commit_session s).

End Sqlite.

Declare Scope db_scope.
Delimit Scope db_scope with db.
Notation "x <~ m ;; k" := (Sqlite.bind m (λ x, k))
  (at level 100, m at next level, right associativity) : db_scope.
Notation "m ;; k" := (Sqlite.bind m (λ _, k))
  (at level 100, right associativity) : db_scope.

(** ** The application *)

Import Py Sqlite.

(** [class URLCreate(BaseModel)]: both fields are [str]. *)
Module URLCreate.
Record t := Make { code : string; url : string }.
End URLCreate.

(** What a handler returns: a [dict] that the framework serialises, or
    a response object.  The HTML page of [manage_page] is kept as the
    rows it renders, one table line per row and in that order; its
    markup is left out. *)
Inductive retval :=
| Dict (items : list (string * string))
| RedirectResponse (url : string) (status_code : Z)
| HTMLResponse (entries : list row).

(** A handler runs against the database file and leaves a database
    file behind. *)
Definition handler : Type := table → (exn + retval) * table.

(** [init_db]: [CREATE TABLE IF NOT EXISTS urls ...] on a file that has
    the table ([Some]) or not ([None]). *)
Definition init_db (file : option table) : table := default [] file.


(** [with get_db() as conn: body]: the connection is closed on every
    way out of the block. *)
Definition get_db {A} (body : db_op A) (DATABASE : table)
  : (exn + A) * table :=
  let '(r, conn) := body (connect DATABASE) in (r, close conn).

Definition read_root : handler :=
  λ DATABASE,
    (inr (Dict [("message", "Welcome to the FastAPI application!")]),
     DATABASE).

Definition manage_page : handler :=
  get_db (entries <~ fetchall_by_code ;;
          ret (HTMLResponse entries))%db.

Definition create_short_url (url_data : URLCreate.t) : handler :=
  get_db
    (try_except
       (execute_insert (URLCreate.code url_data) (URLCreate.url url_data) ;;
        commit ;;
        ret (Dict [("code", URLCreate.code url_data);
                   ("url", URLCreate.url url_data);
                   ("message", "Short URL created successfully")]))%db
       (λ e, match e with
             | IntegrityError _ =>
                 raise (HTTPException 400 "Code already exists")
             | _ => raise e
             end)).

Definition update_url (code : string) (url_data : gmap string json)
  : handler :=
  λ DATABASE,
    match getitem url_data "url" with
    | inl (KeyError _) =>
        (inl (HTTPException 500 "Missing 'url' field in request body"),
         DATABASE)
    | inl e => (inl e, DATABASE)
    | inr new_url =>
        get_db
          (rowcount <~ execute_update new_url code ;;
           commit ;;
           if rowcount =? 0
           then raise (HTTPException 404 "Code not found")
           else ret (Dict [("message", "URL updated successfully")]))%db
          DATABASE
    end.

Definition delete_url (code : string) : handler :=
  get_db
    (rowcount <~ execute_delete code ;;
     commit ;;
     if rowcount =? 0
     then raise (HTTPException 404 "Code not found")
     else ret (Dict [("message", "Entry deleted successfully")]))%db.

Definition resolve (code : string) : handler :=
  get_db
    (result <~ fetchone_url code ;;
     match result with
     | Some url => ret (RedirectResponse url 302)
     | None => ret (RedirectResponse "/manage" 302)
     end)%db.

(** *** Outcomes by name *)

(** The outcomes the handlers are written to produce. *)
Definition created (c u : string) : retval :=
  Dict [("code", c); ("url", u); ("message", "Short URL created successfully")].
Definition updated : retval := Dict [("message", "URL updated successfully")].
Definition deleted : retval := Dict [("message", "Entry deleted successfully")].
Definition to_manage : retval := RedirectResponse "/manage" 302.

Definition duplicate_code : exn := HTTPException 400 "Code already exists".
Definition code_not_found : exn := HTTPException 404 "Code not found".
Definition missing_url_field : exn :=
  HTTPException 500 "Missing 'url' field in request body".

(** A handler call succeeded when it returned instead of raising. *)
Definition succeeded (outcome : exn + retval) : Prop :=
  match outcome with inr _ => True | inl _ => False end.

(** ** The framework around the handlers *)

Inductive body :=
| JsonBody (items : list (string * string))
| HtmlBody (entries : list row)
| TextBody (text : string)
| ValidationErrors              (* the 422 body of a rejected request *)
| FrameworkPage                 (* the framework's own documentation pages *)
| EmptyBody.

Record response := Response {
  status : Z;
  location : option string;     (* the Location header *)
  content : body
}.

Definition is_redirect (r : response) : Prop := 300 <= status r < 400.
Definition is_client_error (r : response) : Prop := 400 <= status r < 500.
Definition is_server_error (r : response) : Prop := 500 <= status r < 600.

(** What the framework sends for the outcome of a handler: a returned
    [dict] is a 200 JSON body, a response object is sent as it is, an
    [HTTPException] becomes a JSON body with its status code and its
    detail, and any other exception ends as a plain 500. *)
Definition respond (outcome : exn + retval) : response :=
  match outcome with
  | inr (Dict items) => Response 200 None (JsonBody items)
  | inr (RedirectResponse url status_code) =>
      Response status_code (Some url) EmptyBody
  | inr (HTMLResponse entries) => Response 200 None (HtmlBody entries)
  | inl (HTTPException status_code detail) =>
      Response status_code None (JsonBody [("detail", detail)])
  | inl _ => Response 500 None (TextBody "Internal Server Error")
  end.

(** *** Routes *)

Inductive http_method := GET | HEAD | POST | PUT | DELETE | PATCH | OPTIONS.

Global Instance http_method_eq_dec : EqDecision http_method.
Proof. solve_decision. Defined.

(** The function a route calls, with the path parameter it was given. *)
Inductive endpoint :=
| Documentation                       (* registered by [FastAPI()] itself *)
| ReadRoot
| ManagePage
| CreateShortUrl
| UpdateUrl (code : string)
| DeleteUrl (code : string)
| Resolve (code : string).

(** A route path is a literal, or a literal followed by one [{code}]
    parameter, which stands for a non-empty run of characters other
    than [/]. *)
Inductive pattern :=
| Literal (path : string)
| WithCode (prefix : string).

Record route := Route {
  route_path : pattern;
  route_methods : list http_method;
  route_endpoint : string → endpoint
}.

Fixpoint strip_prefix (p s : string) : option string :=
  match p, s with
  | EmptyString, _ => Some s
  | String _ _, EmptyString => None
  | String a p', String b s' =>
      if decide (a = b) then strip_prefix p' s' else None
  end.

Fixpoint has_slash (s : string) : bool :=
  match s with
  | EmptyString => false
  | String a s' => if decide (a = "/"%char) then true else has_slash s'
  end.

(** The path parameter when the pattern matches the whole path (the
    empty string for a literal). *)
Definition match_path (p : pattern) (path : string) : option string :=
  match p with
  | Literal l => if decide (l = path) then Some "" else None
  | WithCode prefix =>
      match strip_prefix prefix path with
      | Some code =>
          if decide (code = "") then None
          else if has_slash code then None else Some code
      | None => None
      end
  end.

Inductive route_match := NONE | PARTIAL | FULL (e : endpoint).

Definition matches (r : route) (m : http_method) (path : string)
  : route_match :=
  match match_path (route_path r) path with
  | None => NONE
  | Some code =>
      if decide (m ∈ route_methods r) then FULL (route_endpoint r code)
      else PARTIAL
  end.

(** The routes [FastAPI()] adds before any decorator runs. *)
Definition default_routes : list route :=
  [ Route (Literal "/openapi.json") [GET; HEAD] (λ _, Documentation);
    Route (Literal "/docs") [GET; HEAD] (λ _, Documentation);
    Route (Literal "/docs/oauth2-redirect") [GET; HEAD] (λ _, Documentation);
    Route (Literal "/redoc") [GET; HEAD] (λ _, Documentation) ].

(** The decorators of [main.py], top to bottom. *)
Definition app_routes : list route :=
  [ Route (Literal "/") [GET] (λ _, ReadRoot);
    Route (Literal "/manage") [GET] (λ _, ManagePage);
    Route (Literal "/shorten") [POST] (λ _, CreateShortUrl);
    Route (WithCode "/update/") [PUT] UpdateUrl;
    Route (WithCode "/delete/") [DELETE] DeleteUrl;
    Route (WithCode "/") [GET] Resolve ].

Definition routes : list route := default_routes ++ app_routes.

Inductive routed :=
| Call (e : endpoint)
| MethodNotAllowed                    (* 405 *)
| RedirectSlashes (path : string)     (* 307 *)
| NotFound.                           (* 404 *)

(** The router tries the routes in the order of registration: the
    first full match is called; a route whose path matches but whose
    method does not is remembered and answers 405 when no full match
    follows. *)
Fixpoint first_match (rs : list route) (m : http_method) (path : string)
  (partial : bool) : option routed :=
  match rs with
  | [] => if partial then Some MethodNotAllowed else None
  | r :: rs' =>
      match matches r m path with
      | FULL e => Some (Call e)
      | PARTIAL => first_match rs' m path true
      | NONE => first_match rs' m path partial
      end
  end.

Fixpoint lstrip_slash (s : string) : string :=
  match s with
  | String a s' => if decide (a = "/"%char) then lstrip_slash s' else s
  | EmptyString => s
  end.

(** [path.rstrip("/")] *)
Definition rstrip_slash (s : string) : string :=
  String.rev (lstrip_slash (String.rev s)).

Definition ends_with_slash (s : string) : bool :=
  match String.rev s with
  | String a _ => bool_decide (a = "/"%char)
  | EmptyString => false
  end.

Definition any_match (rs : list route) (m : http_method) (path : string)
  : bool :=
  existsb (λ r, match matches r m path with NONE => false | _ => true end) rs.

(** When nothing matched, a path other than [/] is tried again with
    its trailing slashes removed, or with one added. *)
Definition route_request (rs : list route) (m : http_method) (path : string)
  : routed :=
  match first_match rs m path false with
  | Some r => r
  | None =>
      if decide (path = "/") then NotFound
      else
        let path' := if ends_with_slash path then rstrip_slash path
                     else path +:+ "/" in
        if any_match rs m path' then RedirectSlashes path' else NotFound
  end.

(** *** Requests *)

Record request := Request {
  method : http_method;
  path : string;
  json_body : option json       (* the decoded JSON body, if there is one *)
}.

(** The body of [POST /shorten] has to fit [URLCreate]: an object whose
    [code] and [url] are both strings. *)
Definition validate_URLCreate (b : option json) : option URLCreate.t :=
  match b with
  | Some (JObj o) =>
      match o !! "code", o !! "url" with
      | Some (JStr c), Some (JStr u) => Some (URLCreate.Make c u)
      | _, _ => None
      end
  | _ => None
  end.

(** The body of [PUT /update/{code}] has to be an object; nothing is
    asked of its fields. *)
Definition validate_dict (b : option json) : option (gmap string json) :=
  match b with
  | Some (JObj o) => Some o
  | _ => None
  end.

Definition serve (h : handler) (DATABASE : table) : response * table :=
  let '(outcome, DATABASE') := h DATABASE in (respond outcome, DATABASE').

Definition unprocessable : response := Response 422 None ValidationErrors.

(** One request against the application. *)
Definition app (rq : request) (DATABASE : table) : response * table :=
  match route_request routes (method rq) (path rq) with
  | Call Documentation => (Response 200 None FrameworkPage, DATABASE)
  | Call ReadRoot => serve read_root DATABASE
  | Call ManagePage => serve manage_page DATABASE
  | Call CreateShortUrl =>
      match validate_URLCreate (json_body rq) with
      | Some url_data => serve (create_short_url url_data) DATABASE
      | None => (unprocessable, DATABASE)
      end
  | Call (UpdateUrl code) =>
      match validate_dict (json_body rq) with
      | Some url_data => serve (update_url code url_data) DATABASE
      | None => (unprocessable, DATABASE)
      end
  | Call (DeleteUrl code) => serve (delete_url code) DATABASE
  | Call (Resolve code) => serve (resolve code) DATABASE
  | MethodNotAllowed =>
      (Response 405 None (JsonBody [("detail", "Method Not Allowed")]),
       DATABASE)
  | RedirectSlashes path' => (Response 307 (Some path') EmptyBody, DATABASE)
  | NotFound =>
      (Response 404 None (JsonBody [("detail", "Not Found")]), DATABASE)
  end.

(** The database after a sequence of requests, served one after the
    other. *)
Definition run (rqs : list request) (DATABASE : table) : table :=
  foldl (λ db rq, snd (app rq db)) DATABASE rqs.


(** ** Two [create_short_url] calls at the same time

    Each call has its own connection to the one database file.  What a
    call does to the file happens in three steps, and the steps of two
    calls may interleave in any order:
    - [cursor.execute(INSERT)] opens the write transaction of the
      connection, which takes the write lock of the file; while another
      connection holds the lock the statement waits (the lock timeout
      is not modelled).  The PRIMARY KEY check is made against the
      file as it is then;
    - [conn.commit()] writes the transaction to the file and gives the
      lock back;
    - leaving the [with] block closes the connection, which drops an
      open transaction and its lock. *)

Module Race.

Inductive tid := T1 | T2.

Global Instance tid_eq_dec : EqDecision tid.
Proof. solve_decision. Defined.

Inductive pc :=
| AtExecute                       (* connected, INSERT not yet run *)
| AtCommit                        (* INSERT done, not yet committed *)
| AtClose (r : exn + retval)      (* on the way out of the [with] block *)
| Returned (r : exn + retval).    (* the handler is over *)

Record thread := Thread {
  url_data : URLCreate.t;
  at_pc : pc;
  txn : option table              (* the open transaction of its connection *)
}.

Record world := World {
  file : table;
  writer : option tid;            (* who holds the write lock *)
  thread1 : thread;
  thread2 : thread
}.

Definition get (i : tid) (w : world) : thread :=
  match i with T1 => thread1 w | T2 => thread2 w end.

Definition put (i : tid) (th : thread) (f : table) (l : option tid)
  (w : world) : world :=
  match i with
  | T1 => World f l th (thread2 w)
  | T2 => World f l (thread1 w) th
  end.

Definition release (i : tid) (l : option tid) : option tid :=
  if decide (l = Some i) then None else l.

(** One step of call [i], or [None] when the call cannot move: it waits
    for the lock, or it has returned. *)
Definition step (i : tid) (w : world) : option world :=
  let th := get i w in
  let d := url_data th in
  let conn := Session (file w) (txn th) in
  match at_pc th with
  | AtExecute =>
      match writer w with
      | Some _ => None
      | None =>
          match execute_insert (URLCreate.code d) (URLCreate.url d) conn with
          | (inr _, conn') =>
              Some (put i (Thread d AtCommit (pending conn'))
                      (disk conn') (Some i) w)
          | (inl (IntegrityError _), conn') =>
              Some (put i (Thread d
                             (AtClose (inl (HTTPException 400
                                              "Code already exists")))
                             (pending conn'))
                      (disk conn') (Some i) w)
          | (inl e, conn') =>
              Some (put i (Thread d (AtClose (inl e)) (pending conn'))
                      (disk conn') (Some i) w)
          end
      end
  | AtCommit =>
      let conn' := commit_session conn in
      Some (put i (Thread d
                     (AtClose (inr (Dict
                        [("code", URLCreate.code d);
                         ("url", URLCreate.url d);
                         ("message", "Short URL created successfully")])))
                     (pending conn'))
              (disk conn') (release i (writer w)) w)
  | AtClose r =>
      Some (put i (Thread d (Returned r) None)
              (close conn) (release i (writer w)) w)
  | Returned _ => None
  end.

(** A schedule names the call that moves next; it is feasible when each
    call it names can move at that point. *)
Fixpoint exec (sched : list tid) (w : world) : option world :=
  match sched with
  | [] => Some w
  | i :: sched' =>
      match step i w with
      | Some w' => exec sched' w'
      | None => None
      end
  end.

(** Both requests have arrived and neither has touched the file. *)
Definition start (DATABASE : table) (d1 d2 : URLCreate.t) : world :=
  World DATABASE None (Thread d1 AtExecute None) (Thread d2 AtExecute None).

Definition reachable (DATABASE : table) (d1 d2 : URLCreate.t) (w : world)
  : Prop :=
  ∃ sched, exec sched (start DATABASE d1 d2) = Some w.







(** *** Any two calls

    The same bookkeeping for two calls with any codes on any table, in
    terms of what [create_short_url] does when it runs alone. *)

Definition other (i : tid) : tid :=
  match i with T1 => T2 | T2 => T1 end.

Definition pick {A} (i : tid) (x1 x2 : A) : A :=
  match i with T1 => x1 | T2 => x2 end.

(** The outcome and the table of a call that runs alone on [f]. *)
Definition outcome_alone (d : URLCreate.t) (f : table) : exn + retval :=
  fst (create_short_url d f).
Definition table_alone (d : URLCreate.t) (f : table) : table :=
  snd (create_short_url d f).

(** The call has not run its INSERT yet. *)
Definition waiting (d : URLCreate.t) (th : thread) : Prop :=
  th = Thread d AtExecute None.

(** The call has run its INSERT on the file [f] and holds the lock:
    the row is in its transaction, or the INSERT was refused. *)
Definition holding (d : URLCreate.t) (f : table) (th : thread) : Prop :=
  ((URLCreate.code d ∉ codes f) ∧
   th = Thread d AtCommit
          (Some (f ++ [Row (URLCreate.code d) (URLCreate.url d)]))) ∨
  (URLCreate.code d ∈ codes f ∧
   th = Thread d (AtClose (inl duplicate_code)) (Some f)).

(** The call has given the lock back, after an INSERT on the file [f]:
    it has its outcome and has, or has not yet, closed its connection. *)
Definition past (d : URLCreate.t) (f : table) (th : thread) : Prop :=
  th = Thread d (Returned (outcome_alone d f)) None ∨
  ((URLCreate.code d ∉ codes f) ∧
   th = Thread d (AtClose (outcome_alone d f)) None).

(** The worlds of two calls [d1] and [d2] started on [db]; [i] is the
    call whose INSERT comes first. *)
Inductive serial (db : table) (d1 d2 : URLCreate.t) (w : world) : Prop :=
| serial_start :
    writer w = None → file w = db →
    waiting d1 (thread1 w) → waiting d2 (thread2 w) →
    serial db d1 d2 w
| serial_first_holding (i : tid) :
    writer w = Some i → file w = db →
    holding (pick i d1 d2) db (get i w) →
    waiting (pick (other i) d1 d2) (get (other i) w) →
    serial db d1 d2 w
| serial_first_past (i : tid) :
    writer w = None → file w = table_alone (pick i d1 d2) db →
    past (pick i d1 d2) db (get i w) →
    waiting (pick (other i) d1 d2) (get (other i) w) →
    serial db d1 d2 w
| serial_second_holding (i : tid) :
    writer w = Some (other i) → file w = table_alone (pick i d1 d2) db →
    past (pick i d1 d2) db (get i w) →
    holding (pick (other i) d1 d2) (table_alone (pick i d1 d2) db)
      (get (other i) w) →
    serial db d1 d2 w
| serial_both_past (i : tid) :
    writer w = None →
    file w = table_alone (pick (other i) d1 d2)
               (table_alone (pick i d1 d2) db) →
    past (pick i d1 d2) db (get i w) →
    past (pick (other i) d1 d2) (table_alone (pick i d1 d2) db)
      (get (other i) w) →
    serial db d1 d2 w.

End Race.

(** ** Vocabulary of the statements below *)

(** The JSON bodies the management page sends. *)
Definition create_body (c u : string) : option json :=
  Some (JObj {["code" := JStr c; "url" := JStr u]}).
Definition update_body (u : string) : option json :=
  Some (JObj {["url" := JStr u]}).

(** The lexicographic order on byte strings: a proper prefix comes
    first, otherwise the first position where the strings differ
    decides, by the value of the byte. *)
Inductive lex_le : string → string → Prop :=
| lex_le_nil s : lex_le "" s
| lex_le_lt a b s t :
    (N_of_ascii a < N_of_ascii b)%N → lex_le (String a s) (String b t)
| lex_le_eq a s t : lex_le s t → lex_le (String a s) (String a t).

Definition sorted_by_code (entries : list row) : Prop :=
  StronglySorted (λ r1 r2, lex_le (code r1) (code r2)) entries.

(** No two rows of the table carry the same code. *)
Definition unique_codes (t : table) : Prop := NoDup (codes t).


(** A code the router can hand to a handler as a path parameter. *)
Definition segment (c : string) : Prop := c ≠ "" ∧ has_slash c = false.

(** * Properties *)

(** ** The table operations *)

Section table_facts.
Implicit Types (t : table) (c u : string) (r : row).

Lemma codes_app t1 t2 : codes (t1 ++ t2) = codes t1 ++ codes t2.
Proof. unfold codes. apply fmap_app. Qed.

Lemma elem_of_codes c t : c ∈ codes t ↔ ∃ r, r ∈ t ∧ code r = c.
Proof.
  unfold codes. rewrite list_elem_of_fmap. split.
  - intros (r & -> & Hr). eauto.
  - intros (r & Hr & <-). eauto.
Qed.

Lemma filter_has_code_absent c t : c ∉ codes t → filter (has_code c) t = [].
Proof.
  intros Hc. induction t as [|r t IH]; [done|].
  rewrite filter_cons. destruct (decide (has_code c r)) as [Hr|Hr].
  - exfalso. apply Hc, elem_of_codes. exists r. split; [left|done].
  - apply IH. intros Hin. apply Hc. unfold codes. rewrite fmap_cons.
    by right.
Qed.

Lemma filter_has_code_present c t :
  c ∈ codes t → ∃ r t', filter (has_code c) t = r :: t' ∧ code r = c.
Proof.
  intros (r & Hr & Hcode)%elem_of_codes.
  assert (r ∈ filter (has_code c) t) as Hin
    by (by apply list_elem_of_filter).
  destruct (filter (has_code c) t) as [|r' t'] eqn:E.
  - by apply not_elem_of_nil in Hin.
  - exists r', t'. split; [done|].
    assert (r' ∈ filter (has_code c) t) as Hr' by (rewrite E; left).
    by apply list_elem_of_filter in Hr' as [? _].
Qed.

Lemma filter_not_has_code_absent c t :
  c ∉ codes t → filter (λ r, ¬ has_code c r) t = t.
Proof.
  intros Hc. induction t as [|r t IH]; [done|].
  unfold codes in Hc. rewrite fmap_cons in Hc.
  apply not_elem_of_cons in Hc as [Hne Hc].
  rewrite filter_cons. destruct (decide (¬ has_code c r)) as [_|Hr].
  - f_equal. by apply IH.
  - exfalso. apply Hr. unfold has_code. congruence.
Qed.

Lemma set_url_code c u r : code (set_url c u r) = code r.
Proof. unfold set_url. by case_decide. Qed.

Lemma codes_set_url c u t : codes (set_url c u <$> t) = codes t.
Proof.
  unfold codes. rewrite <- list_fmap_compose. apply list_fmap_ext.
  intros _ r _. apply set_url_code.
Qed.

Lemma set_url_absent c u t : c ∉ codes t → set_url c u <$> t = t.
Proof.
  intros Hc. induction t as [|r t IH]; [done|].
  unfold codes in Hc. rewrite fmap_cons in Hc.
  apply not_elem_of_cons in Hc as [Hne Hc].
  rewrite fmap_cons, IH by done. f_equal.
  unfold set_url, has_code. case_decide; congruence.
Qed.

Lemma filter_has_code_set_url c u t :
  filter (has_code c) (set_url c u <$> t)
  = (λ r, Row (code r) u) <$> filter (has_code c) t.
Proof.
  induction t as [|r t IH]; [done|].
  rewrite fmap_cons, !filter_cons, IH.
  destruct (decide (has_code c r)) as [Hr|Hr].
  - rewrite decide_True by (unfold has_code; by rewrite set_url_code).
    rewrite fmap_cons. f_equal. unfold set_url. by rewrite decide_True.
  - rewrite decide_False; [done|].
    unfold has_code. by rewrite set_url_code.
Qed.

Lemma codes_delete c t : c ∉ codes (filter (λ r, ¬ has_code c r) t).
Proof.
  intros (r & Hr & Hcode)%elem_of_codes.
  apply list_elem_of_filter in Hr as [Hr _]. by apply Hr.
Qed.

Lemma select_url_absent c t : c ∉ codes t → select_url c t = None.
Proof.
  intros Hc. unfold select_url. by rewrite filter_has_code_absent.
Qed.

Lemma select_url_present c t : c ∈ codes t → is_Some (select_url c t).
Proof.
  intros (r & t' & E & _)%filter_has_code_present.
  unfold select_url. rewrite E. by eexists.
Qed.

Lemma select_url_is_Some c t : is_Some (select_url c t) → c ∈ codes t.
Proof.
  intros Hsome. destruct (decide (c ∈ codes t)) as [|Hc]; [done|].
  rewrite select_url_absent in Hsome by done. by destruct Hsome.
Qed.

Lemma select_url_inserted c u t :
  c ∉ codes t → select_url c (t ++ [Row c u]) = Some u.
Proof.
  intros Hc. unfold select_url.
  rewrite filter_app, filter_has_code_absent by done.
  rewrite filter_cons, decide_True by done. done.
Qed.

Lemma select_url_updated c u t :
  c ∈ codes t → select_url c (set_url c u <$> t) = Some u.
Proof.
  intros (r & t' & E & _)%filter_has_code_present.
  unfold select_url. by rewrite filter_has_code_set_url, E.
Qed.
End table_facts.

(** ** What each handler does to the table *)

Ltac unfold_handler :=
  unfold create_short_url, update_url, delete_url, resolve, manage_page,
    read_root, get_db, getitem, try_except, bind, ret, raise, execute_insert,
    execute_update, execute_delete, fetchone_url, fetchall_by_code, commit,
    commit_session, connect, close, view;
  cbn [disk pending default fst snd URLCreate.code URLCreate.url].

Section handler_facts.
Implicit Types (db : table) (c u : string) (d : gmap string json).

Lemma create_short_url_fresh c u db :
  c ∉ codes db →
  create_short_url (URLCreate.Make c u) db
  = (inr (created c u), db ++ [Row c u]).
Proof.
  intros Hc. unfold_handler. unfold insert_urls.
  by rewrite decide_False.
Qed.

Lemma create_short_url_taken c u db :
  c ∈ codes db →
  create_short_url (URLCreate.Make c u) db = (inl duplicate_code, db).
Proof.
  intros Hc. unfold_handler. unfold insert_urls.
  by rewrite decide_True.
Qed.

Lemma create_short_url_succeeded c u db :
  succeeded (fst (create_short_url (URLCreate.Make c u) db)) → c ∉ codes db.
Proof.
  intros Hok Hc. by rewrite create_short_url_taken in Hok.
Qed.

Lemma update_url_missing c d db :
  d !! "url" = None → update_url c d db = (inl missing_url_field, db).
Proof. intros Hd. unfold_handler. by rewrite Hd. Qed.

Lemma update_url_present c u d db :
  d !! "url" = Some (JStr u) → c ∈ codes db →
  update_url c d db
  = (inr updated, set_url c u <$> db).
Proof.
  intros Hd (r & t' & E & _)%filter_has_code_present.
  unfold_handler. rewrite Hd. cbn. unfold update_urls. cbn.
  by rewrite E.
Qed.

Lemma update_url_absent c u d db :
  d !! "url" = Some (JStr u) → c ∉ codes db →
  update_url c d db = (inl code_not_found, db).
Proof.
  intros Hd Hc. unfold_handler. rewrite Hd. cbn. unfold update_urls. cbn.
  by rewrite filter_has_code_absent, set_url_absent.
Qed.

Lemma delete_url_present c db :
  c ∈ codes db →
  delete_url c db = (inr deleted, filter (λ r, ¬ has_code c r) db).
Proof.
  intros (r & t' & E & _)%filter_has_code_present.
  unfold_handler. unfold delete_urls. by rewrite E.
Qed.

Lemma delete_url_absent c db :
  c ∉ codes db → delete_url c db = (inl code_not_found, db).
Proof.
  intros Hc. unfold_handler. unfold delete_urls.
  by rewrite filter_has_code_absent, filter_not_has_code_absent.
Qed.

Lemma resolve_found c u db :
  select_url c db = Some u →
  resolve c db = (inr (RedirectResponse u 302), db).
Proof. intros Hu. unfold_handler. by rewrite Hu. Qed.

Lemma resolve_unknown c db :
  c ∉ codes db → resolve c db = (inr to_manage, db).
Proof.
  intros Hc. unfold_handler. by rewrite select_url_absent.
Qed.

Lemma manage_page_eq db :
  manage_page db = (inr (HTMLResponse (select_all_order_by_code db)), db).
Proof. done. Qed.
End handler_facts.

(** ** Create, resolve, update, delete *)

Lemma respond_duplicate_code :
  respond (inl duplicate_code)
  = Response 400 None (JsonBody [("detail", "Code already exists")]).
Proof. reflexivity. Qed.

(** C1 (uniqueness).  Once [create_short_url] has succeeded for a code
    [c] with URL [u1], a following [create_short_url] for the same code
    with any URL [u2] raises the 400 "Code already exists" exception,
    which the framework sends as a client error and not as a server
    error; the table is left as the first call made it, and resolving
    [c] afterwards still redirects to [u1]. *)
Theorem create_twice_keeps_first (c u1 u2 : string) (v : retval)
    (db db1 : table) :
  create_short_url (URLCreate.Make c u1) db = (inr v, db1) →
  ∃ db2,
    create_short_url (URLCreate.Make c u2) db1 = (inl duplicate_code, db2) ∧
    is_client_error (respond (inl duplicate_code)) ∧
    ¬ is_server_error (respond (inl duplicate_code)) ∧
    db2 = db1 ∧
    resolve c db2 = (inr (RedirectResponse u1 302), db2).
Proof.
  intros Hfirst.
  assert (c ∉ codes db) as Hfresh.
  { apply (create_short_url_succeeded c u1). by rewrite Hfirst. }
  rewrite create_short_url_fresh in Hfirst by done.
  injection Hfirst as _ <-.
  assert (c ∈ codes (db ++ [Row c u1])) as Htaken.
  { rewrite codes_app. apply elem_of_app. right. cbn. left. }
  exists (db ++ [Row c u1]). split_and!.
  - by apply create_short_url_taken.
  - rewrite respond_duplicate_code. unfold is_client_error. cbn. lia.
  - rewrite respond_duplicate_code. unfold is_server_error. cbn. lia.
  - done.
  - apply resolve_found. by apply select_url_inserted.
Qed.

Lemma create_twice_keeps_first_witness :
  ∃ db2,
    create_short_url (URLCreate.Make "github" "https://gh.io")
      [Row "github" "https://github.com"]
    = (inl duplicate_code, db2) ∧
    is_client_error (respond (inl duplicate_code)) ∧
    ¬ is_server_error (respond (inl duplicate_code)) ∧
    db2 = [Row "github" "https://github.com"] ∧
    resolve "github" db2
    = (inr (RedirectResponse "https://github.com" 302), db2).
Proof.
  apply (create_twice_keeps_first "github" "https://github.com"
           "https://gh.io" (created "github" "https://github.com") []).
  reflexivity.
Defined.

(** C2 (update correctness).  When the table holds code [c] with URL
    [u1], an update of [c] whose payload carries the URL [u2] succeeds,
    and resolving [c] afterwards redirects to [u2]; unless the two URLs
    are the same, it does not redirect to [u1]. *)
Theorem update_then_resolve (c u1 u2 : string) (d : gmap string json)
    (db : table) :
  Row c u1 ∈ db →
  d !! "url" = Some (JStr u2) →
  ∃ db',
    update_url c d db = (inr updated, db') ∧
    resolve c db' = (inr (RedirectResponse u2 302), db') ∧
    (u1 ≠ u2 → fst (resolve c db') ≠ inr (RedirectResponse u1 302)).
Proof.
  intros Hrow Hd.
  assert (c ∈ codes db) as Hc by (apply elem_of_codes; eauto).
  exists (set_url c u2 <$> db).
  assert (resolve c (set_url c u2 <$> db)
          = (inr (RedirectResponse u2 302), set_url c u2 <$> db)) as Hres
    by (apply resolve_found; by apply select_url_updated).
  split_and!.
  - by apply update_url_present.
  - done.
  - intros Hne. rewrite Hres. cbn. congruence.
Qed.

Lemma update_then_resolve_witness :
  ∃ db',
    update_url "github" {["url" := JStr "https://gh.io"]}
      [Row "a" "https://a.com"; Row "github" "https://github.com"]
    = (inr updated, db') ∧
    resolve "github" db' = (inr (RedirectResponse "https://gh.io" 302), db') ∧
    ("https://github.com" ≠ "https://gh.io" →
     fst (resolve "github" db')
     ≠ inr (RedirectResponse "https://github.com" 302)).
Proof.
  apply (update_then_resolve "github" "https://github.com" "https://gh.io").
  - right. left.
  - reflexivity.
Defined.

(** C3 (not-found symmetry, failing delete after delete).  When code [c]
    is not in the table, or the table is what a delete of [c] has just
    left behind (so also after a create and a delete of [c], and after
    a first successful delete), both an update of [c] with a URL and a
    delete of [c] raise the 404 "Code not found" exception. *)
Theorem absent_code_not_found (c u : string) (d : gmap string json)
    (db : table) :
  d !! "url" = Some (JStr u) →
  c ∉ codes db ∨ (∃ db0, db = snd (delete_url c db0)) →
  update_url c d db = (inl code_not_found, db) ∧
  delete_url c db = (inl code_not_found, db) ∧
  is_client_error (respond (inl code_not_found)).
Proof.
  intros Hd Hwhy.
  assert (c ∉ codes db) as Hc.
  { destruct Hwhy as [|[db0 ->]]; [done|].
    destruct (decide (c ∈ codes db0)).
    - rewrite delete_url_present by done. apply codes_delete.
    - by rewrite delete_url_absent. }
  split_and!.
  - by eapply update_url_absent.
  - by apply delete_url_absent.
  - unfold is_client_error. cbn. lia.
Qed.

Lemma absent_code_not_found_witness :
  let db := snd (delete_url "github"
                   (snd (create_short_url
                           (URLCreate.Make "github" "https://github.com")
                           [Row "a" "https://a.com"]))) in
  update_url "github" {["url" := JStr "https://gh.io"]} db
  = (inl code_not_found, db) ∧
  delete_url "github" db = (inl code_not_found, db) ∧
  is_client_error (respond (inl code_not_found)).
Proof.
  apply (absent_code_not_found "github" "https://gh.io").
  - reflexivity.
  - right. eexists. reflexivity.
Defined.

(** C4 (no upsert).  An update of a code that is not in the table
    leaves the table exactly as it was, whatever the payload: no row is
    added for the code. *)
Theorem update_never_creates (c : string) (d : gmap string json)
    (db : table) :
  c ∉ codes db →
  snd (update_url c d db) = db ∧ c ∉ codes (snd (update_url c d db)).
Proof.
  intros Hc.
  assert (snd (update_url c d db) = db) as Hsame.
  { unfold_handler. destruct (d !! "url") as [new_url|]; [|done].
    destruct (adapt new_url) as [e|v] eqn:Hv.
    - done.
    - unfold update_urls. rewrite filter_has_code_absent by done.
      destruct (text_affinity v) as [u'|]; cbn.
      + by rewrite set_url_absent.
      + done. }
  by rewrite Hsame.
Qed.

Lemma update_never_creates_witness :
  snd (update_url "nonexistent" {["url" := JStr "https://example.com"]}
         [Row "test1" "https://example.com"])
  = [Row "test1" "https://example.com"] ∧
  "nonexistent"
  ∉ codes (snd (update_url "nonexistent"
                  {["url" := JStr "https://example.com"]}
                  [Row "test1" "https://example.com"])).
Proof.
  apply (update_never_creates "nonexistent").
  apply (bool_decide_unpack _). vm_compute. exact I.
Defined.

(** C5 (resolve fallback).  Resolving a code that is not in the table
    returns a 302 redirect to [/manage]; the response is a redirect,
    neither a client error nor a server error, and the table is not
    changed. *)
Theorem resolve_unknown_redirects (c : string) (db : table) :
  c ∉ codes db →
  resolve c db = (inr to_manage, db) ∧
  respond (inr to_manage) = Response 302 (Some "/manage") EmptyBody ∧
  is_redirect (respond (inr to_manage)) ∧
  ¬ is_client_error (respond (inr to_manage)) ∧
  ¬ is_server_error (respond (inr to_manage)).
Proof.
  intros Hc. split_and!.
  - by apply resolve_unknown.
  - reflexivity.
  - unfold is_redirect. cbn. lia.
  - unfold is_client_error. cbn. lia.
  - unfold is_server_error. cbn. lia.
Qed.

Lemma resolve_unknown_redirects_witness :
  resolve "nonexistent" [Row "test1" "https://example.com"]
  = (inr to_manage, [Row "test1" "https://example.com"]) ∧
  respond (inr to_manage) = Response 302 (Some "/manage") EmptyBody ∧
  is_redirect (respond (inr to_manage)) ∧
  ¬ is_client_error (respond (inr to_manage)) ∧
  ¬ is_server_error (respond (inr to_manage)).
Proof.
  apply (resolve_unknown_redirects "nonexistent").
  apply (bool_decide_unpack _). vm_compute. exact I.
Defined.

(** C7 (missing field).  An update whose payload has no [url] field
    raises the 500 "Missing 'url' field in request body" exception, for
    a code that is in the table as for one that is not.  Its response
    differs from the not-found response in status code and in body, the
    table is left untouched, and the outcome is the same whatever the
    table holds: the table is not looked at. *)
Theorem update_without_url_field (c : string) (d : gmap string json)
    (db : table) :
  d !! "url" = None →
  update_url c d db = (inl missing_url_field, db) ∧
  status (respond (inl missing_url_field))
  ≠ status (respond (inl code_not_found)) ∧
  content (respond (inl missing_url_field))
  ≠ content (respond (inl code_not_found)) ∧
  (∀ db', fst (update_url c d db') = fst (update_url c d db)).
Proof.
  intros Hd. split_and!.
  - by apply update_url_missing.
  - cbn. lia.
  - cbn. congruence.
  - intros db'. by rewrite !update_url_missing.
Qed.

Lemma update_without_url_field_witness :
  update_url "nonexistent" ∅ [Row "test1" "https://example.com"]
  = (inl missing_url_field, [Row "test1" "https://example.com"]) ∧
  status (respond (inl missing_url_field))
  ≠ status (respond (inl code_not_found)) ∧
  content (respond (inl missing_url_field))
  ≠ content (respond (inl code_not_found)) ∧
  (∀ db', fst (update_url "nonexistent" ∅ db')
          = fst (update_url "nonexistent" ∅
                   [Row "test1" "https://example.com"])).
Proof.
  apply (update_without_url_field "nonexistent" ∅).
  reflexivity.
Defined.

(** ** The order of the listing *)

Lemma N_of_ascii_inj (a b : ascii) : N_of_ascii a = N_of_ascii b → a = b.
Proof.
  intros E. rewrite <- (ascii_N_embedding a), <- (ascii_N_embedding b).
  by rewrite E.
Qed.

(** The comparison SQLite makes is the lexicographic order on bytes. *)
Lemma leb_lex_le (s1 s2 : string) : String.leb s1 s2 = true ↔ lex_le s1 s2.
Proof.
  unfold String.leb. revert s2.
  induction s1 as [|a s1 IH]; intros [|b s2]; cbn.
  - split; [constructor|done].
  - split; [constructor|done].
  - split; [done|inversion 1].
  - unfold Ascii.compare.
    destruct (N.compare_spec (N_of_ascii a) (N_of_ascii b)) as [E|Hlt|Hgt].
    + apply N_of_ascii_inj in E as <-. rewrite IH. split.
      * by constructor.
      * inversion 1; subst; [lia|done].
    + split; [|done]. intros _. by constructor.
    + split; [done|]. inversion 1; subst; lia.
Qed.

Lemma lex_le_trans (s t u : string) : lex_le s t → lex_le t u → lex_le s u.
Proof.
  intros Hst. revert u.
  induction Hst as [s|a b s t Hab|a s t Hst IH]; intros u Htu.
  - constructor.
  - inversion Htu; subst.
    + apply lex_le_lt. lia.
    + by apply lex_le_lt.
  - inversion Htu; subst.
    + by apply lex_le_lt.
    + apply lex_le_eq. by apply IH.
Qed.

Lemma lex_le_total (s t : string) : lex_le s t ∨ lex_le t s.
Proof.
  destruct (String.leb_total s t) as [H|H]; apply leb_lex_le in H; auto.
Qed.

Lemma lex_le_antisym (s t : string) : lex_le s t → lex_le t s → s = t.
Proof.
  intros H1%leb_lex_le H2%leb_lex_le. by apply String.leb_antisym.
Qed.

Lemma code_le_total : Total code_le.
Proof.
  intros r1 r2. unfold code_le. apply String.leb_total.
Qed.

Lemma code_le_trans : Transitive code_le.
Proof.
  intros r1 r2 r3. unfold code_le. rewrite !leb_lex_le. apply lex_le_trans.
Qed.

Lemma select_all_Permutation (t : table) : select_all_order_by_code t ≡ₚ t.
Proof. apply merge_sort_Permutation. Qed.

Lemma select_all_sorted (t : table) :
  sorted_by_code (select_all_order_by_code t).
Proof.
  pose proof code_le_total. pose proof code_le_trans.
  assert (StronglySorted code_le (select_all_order_by_code t)) as Hs
    by (apply StronglySorted_merge_sort; apply _).
  unfold sorted_by_code.
  induction Hs as [|r l _ IH Hr]; constructor; [done|].
  eapply Forall_impl; [exact Hr|].
  intros r' Hle. by apply leb_lex_le.
Qed.

(** Within a table whose codes are unique, a row is known by its code. *)
Lemma unique_codes_row (t : table) (r1 r2 : row) :
  unique_codes t → r1 ∈ t → r2 ∈ t → code r1 = code r2 → r1 = r2.
Proof.
  unfold unique_codes, codes. intros Hnd H1 H2 Hcode.
  induction t as [|r t IH]; [by apply not_elem_of_nil in H1|].
  rewrite fmap_cons in Hnd. apply NoDup_cons in Hnd as [Hr Hnd].
  apply elem_of_cons in H1 as [->|H1]; apply elem_of_cons in H2 as [->|H2].
  - done.
  - exfalso. apply Hr. rewrite Hcode. by apply list_elem_of_fmap_2.
  - exfalso. apply Hr. rewrite <- Hcode. by apply list_elem_of_fmap_2.
  - by apply IH.
Qed.

(** Two tables with the same rows, entered in different orders, are
    listed alike. *)
Lemma select_all_order_irrelevant (t t' : table) :
  unique_codes t → t' ≡ₚ t →
  select_all_order_by_code t' = select_all_order_by_code t.
Proof.
  intros Hnd Hperm.
  pose proof code_le_total. pose proof code_le_trans.
  apply (StronglySorted_unique_strong code_le).
  - intros r1 r2 H1 H2 H12 H21.
    apply (unique_codes_row t).
    + done.
    + rewrite <- Hperm. by rewrite <- (select_all_Permutation t').
    + by rewrite <- (select_all_Permutation t).
    + apply String.leb_antisym; [exact H12|exact H21].
  - apply StronglySorted_merge_sort; apply _.
  - apply StronglySorted_merge_sort; apply _.
  - by rewrite !select_all_Permutation.
Qed.

(** C6 (list ordering).  For every table, the management page lists
    exactly the rows of the table (a permutation of them), in ascending
    lexicographic byte order of their codes; it does not raise and does
    not change the table; on the empty table the listing is empty; and a
    table with the same rows entered in another order gives the same
    listing. *)
Theorem manage_page_lists_sorted (db : table) :
  ∃ entries,
    manage_page db = (inr (HTMLResponse entries), db) ∧
    entries ≡ₚ db ∧
    sorted_by_code entries ∧
    manage_page [] = (inr (HTMLResponse []), []) ∧
    (∀ db', unique_codes db → db' ≡ₚ db →
            manage_page db' = (inr (HTMLResponse entries), db')).
Proof.
  exists (select_all_order_by_code db). split_and!.
  - apply manage_page_eq.
  - apply select_all_Permutation.
  - apply select_all_sorted.
  - reflexivity.
  - intros db' Hnd Hperm. rewrite manage_page_eq.
    by rewrite (select_all_order_irrelevant db db').
Qed.

Lemma manage_page_lists_sorted_witness :
  ∃ entries,
    manage_page [Row "b" "https://b.com"; Row "a" "https://a.com"]
    = (inr (HTMLResponse entries),
       [Row "b" "https://b.com"; Row "a" "https://a.com"]) ∧
    sorted_by_code entries ∧
    manage_page [Row "a" "https://a.com"; Row "b" "https://b.com"]
    = (inr (HTMLResponse entries),
       [Row "a" "https://a.com"; Row "b" "https://b.com"]).
Proof.
  destruct (manage_page_lists_sorted
              [Row "b" "https://b.com"; Row "a" "https://a.com"])
    as (entries & Hpage & _ & Hsorted & _ & Horder).
  exists entries. split_and!; [exact Hpage|exact Hsorted|].
  apply Horder.
  - apply (bool_decide_unpack _). vm_compute. exact I.
  - apply Permutation_swap.
Defined.

(** ** Uniqueness of codes *)

Lemma unique_codes_insert (c u : string) (t : table) :
  unique_codes t → c ∉ codes t → unique_codes (t ++ [Row c u]).
Proof.
  unfold unique_codes. intros Hnd Hc. rewrite codes_app.
  apply NoDup_app. split_and!.
  - done.
  - intros c' Hin [->|Hnil]%elem_of_cons; [done|].
    by apply not_elem_of_nil in Hnil.
  - apply NoDup_singleton.
Qed.

Lemma unique_codes_filter (P : row → Prop) `{∀ r, Decision (P r)}
    (t : table) :
  unique_codes t → unique_codes (filter P t).
Proof.
  unfold unique_codes, codes. intros Hnd.
  eapply sublist_NoDup; [exact Hnd|].
  apply fmap_sublist, sublist_filter.
Qed.

Lemma create_short_url_table (url_data : URLCreate.t) (db : table) :
  let c := URLCreate.code url_data in
  snd (create_short_url url_data db)
  = if decide (c ∈ codes db) then db
    else db ++ [Row c (URLCreate.url url_data)].
Proof.
  destruct url_data as [c u]. cbn. case_decide.
  - by rewrite create_short_url_taken.
  - by rewrite create_short_url_fresh.
Qed.

Lemma update_url_codes (c : string) (d : gmap string json) (db : table) :
  codes (snd (update_url c d db)) = codes db.
Proof.
  unfold_handler. destruct (d !! "url") as [new_url|]; [|done].
  destruct (adapt new_url) as [e|v]; [done|].
  unfold update_urls. destruct (text_affinity v) as [u|]; cbn.
  - destruct (Z.of_nat (length (filter (has_code c) db)) =? 0);
      cbn; apply codes_set_url.
  - by destruct (filter (has_code c) db).
Qed.

Lemma delete_url_table (c : string) (db : table) :
  snd (delete_url c db) = filter (λ r, ¬ has_code c r) db.
Proof.
  unfold_handler. unfold delete_urls.
  by destruct (Z.of_nat (length (filter (has_code c) db)) =? 0).
Qed.

Lemma create_short_url_unique (url_data : URLCreate.t) (db : table) :
  unique_codes db → unique_codes (snd (create_short_url url_data db)).
Proof.
  intros Hnd. rewrite create_short_url_table. cbn. case_decide; [done|].
  by apply unique_codes_insert.
Qed.

Lemma update_url_unique (c : string) (d : gmap string json) (db : table) :
  unique_codes db → unique_codes (snd (update_url c d db)).
Proof. unfold unique_codes. by rewrite update_url_codes. Qed.

Lemma delete_url_unique (c : string) (db : table) :
  unique_codes db → unique_codes (snd (delete_url c db)).
Proof.
  intros Hnd. rewrite delete_url_table. by apply unique_codes_filter.
Qed.

Lemma resolve_table (c : string) (db : table) : snd (resolve c db) = db.
Proof. unfold_handler. by destruct (select_url c db). Qed.

Lemma serve_table (h : handler) (db : table) : snd (serve h db) = snd (h db).
Proof. unfold serve. by destruct (h db). Qed.

Lemma app_unique (rq : request) (db : table) :
  unique_codes db → unique_codes (snd (app rq db)).
Proof.
  intros Hnd. unfold app.
  destruct (route_request routes (method rq) (path rq)) as [[]| | |].
  - done.
  - rewrite serve_table. exact Hnd.
  - rewrite serve_table. exact Hnd.
  - destruct (validate_URLCreate (json_body rq)); [|done].
    rewrite serve_table. by apply create_short_url_unique.
  - destruct (validate_dict (json_body rq)); [|done].
    rewrite serve_table. by apply update_url_unique.
  - rewrite serve_table. by apply delete_url_unique.
  - by rewrite serve_table, resolve_table.
  - done.
  - done.
  - done.
Qed.

Lemma run_unique (rqs : list request) (db : table) :
  unique_codes db → unique_codes (run rqs db).
Proof.
  unfold run. revert db.
  induction rqs as [|rq rqs IH]; intros db Hnd; [done|].
  cbn. by apply IH, app_unique.
Qed.

(** C8 (uniqueness invariant).  The table [init_db] creates has no two
    rows with the same code; each of create, update and delete, and
    more generally every request served by the application, keeps it
    so; hence no table reached from the empty one by any sequence of
    requests has two rows with the same code. *)
Theorem codes_stay_unique :
  unique_codes (init_db None) ∧
  (∀ url_data db,
     unique_codes db → unique_codes (snd (create_short_url url_data db))) ∧
  (∀ c d db, unique_codes db → unique_codes (snd (update_url c d db))) ∧
  (∀ c db, unique_codes db → unique_codes (snd (delete_url c db))) ∧
  (∀ rq db, unique_codes db → unique_codes (snd (app rq db))) ∧
  (∀ rqs, unique_codes (run rqs (init_db None))) ∧
  (∀ rqs r1 r2,
     r1 ∈ run rqs (init_db None) → r2 ∈ run rqs (init_db None) →
     code r1 = code r2 → r1 = r2).
Proof.
  assert (unique_codes (init_db None)) as Hinit by apply NoDup_nil_2.
  split_and!.
  - done.
  - apply create_short_url_unique.
  - apply update_url_unique.
  - apply delete_url_unique.
  - apply app_unique.
  - intros rqs. by apply run_unique.
  - intros rqs r1 r2. apply unique_codes_row. by apply run_unique.
Qed.

Lemma codes_stay_unique_witness :
  unique_codes
    (snd (create_short_url (URLCreate.Make "a" "https://other.com")
            [Row "a" "https://a.com"; Row "b" "https://b.com"])) ∧
  unique_codes
    (snd (app (Request DELETE "/delete/a" None)
            [Row "a" "https://a.com"; Row "b" "https://b.com"])).
Proof.
  destruct codes_stay_unique as (_ & Hcreate & _ & _ & Happ & _).
  split.
  - apply Hcreate. apply (bool_decide_unpack _). vm_compute. exact I.
  - apply Happ. apply (bool_decide_unpack _). vm_compute. exact I.
Defined.


(** ** Routing *)

Lemma strip_prefix_slash (p c : string) :
  strip_prefix "/" p = Some c → p = String "/" c.
Proof.
  destruct p as [|a p]; cbn; [done|].
  case_decide; [|done]. intros [= <-]. by subst.
Qed.

Lemma matches_FULL (r : route) (m : http_method) (p : string) (e : endpoint) :
  matches r m p = FULL e →
  ∃ c, match_path (route_path r) p = Some c ∧ m ∈ route_methods r ∧
       e = route_endpoint r c.
Proof.
  unfold matches. destruct (match_path (route_path r) p) as [c|]; [|done].
  case_decide; [|done]. intros [= <-]. eauto.
Qed.

Lemma first_match_Call (rs : list route) (m : http_method) (p : string)
    (partial : bool) (e : endpoint) :
  first_match rs m p partial = Some (Call e) →
  ∃ r, r ∈ rs ∧ matches r m p = FULL e.
Proof.
  revert partial. induction rs as [|r rs IH]; intros partial; cbn.
  - by destruct partial.
  - destruct (matches r m p) as [| |e'] eqn:Hr.
    + intros (r' & Hin & Hm)%IH. exists r'. split; [by right|done].
    + intros (r' & Hin & Hm)%IH. exists r'. split; [by right|done].
    + intros [= ->]. exists r. split; [left|done].
Qed.

Lemma route_request_Call (rs : list route) (m : http_method) (p : string)
    (e : endpoint) :
  route_request rs m p = Call e → ∃ r, r ∈ rs ∧ matches r m p = FULL e.
Proof.
  unfold route_request.
  destruct (first_match rs m p false) as [res|] eqn:Hfirst.
  - intros ->. by eapply first_match_Call.
  - case_decide; [done|]. by case_match.
Qed.

(** The only path whose [{code}] is [manage] is [/manage], and that
    path belongs to the route registered for the management page. *)
Lemma resolve_never_gets_manage (m : http_method) (p : string) :
  route_request routes m p ≠ Call (Resolve "manage").
Proof.
  intros Hcall.
  destruct (decide (p = "/manage")) as [->|Hp].
  - by destruct m.
  - apply route_request_Call in Hcall as (r & Hin & Hfull).
    apply matches_FULL in Hfull as (c & Hpath & _ & He).
    unfold routes, default_routes, app_routes in Hin. cbn in Hin.
    repeat (apply elem_of_cons in Hin as [->|Hin]);
      cbn [route_path route_endpoint] in He, Hpath; try discriminate He.
    + injection He as <-. unfold match_path in Hpath.
      destruct (strip_prefix "/" p) as [c|] eqn:Hstrip; [|done].
      apply strip_prefix_slash in Hstrip as ->.
      repeat case_match; try done. by simplify_eq.
    + by apply not_elem_of_nil in Hin.
Qed.

Lemma validate_create_body (c u : string) :
  validate_URLCreate (create_body c u) = Some (URLCreate.Make c u).
Proof. reflexivity. Qed.

Lemma validate_update_body (u : string) :
  ∃ d, validate_dict (update_body u) = Some d ∧ d !! "url" = Some (JStr u).
Proof. eexists. split; reflexivity. Qed.

(** C10 (the code [manage]).  For every table: an entry with the code
    [manage] can be created through [POST /shorten], shows up in the
    listing, can be updated through [PUT /update/manage] and deleted
    through [DELETE /delete/manage]; but [GET /manage] is answered by
    the management page, whose route is registered before the resolve
    route, and no request at all makes the router call [resolve] with
    the code [manage] - although [resolve] itself, were it called,
    would redirect to the stored URL. *)
Theorem manage_code_is_never_resolved (u u' : string) (db : table) :
  ("manage" ∉ codes db →
   app (Request POST "/shorten" (create_body "manage" u)) db
   = (respond (inr (created "manage" u)), db ++ [Row "manage" u])) ∧
  (Row "manage" u ∈ db →
   ∃ entries, manage_page db = (inr (HTMLResponse entries), db) ∧
              Row "manage" u ∈ entries) ∧
  (Row "manage" u ∈ db →
   ∃ db', app (Request PUT "/update/manage" (update_body u')) db
          = (respond (inr updated), db') ∧
          select_url "manage" db' = Some u') ∧
  (Row "manage" u ∈ db →
   ∃ db', app (Request DELETE "/delete/manage" None) db
          = (respond (inr deleted), db') ∧
          "manage" ∉ codes db') ∧
  route_request routes GET "/manage" = Call ManagePage ∧
  (∀ b, ∃ entries,
     app (Request GET "/manage" b) db
     = (Response 200 None (HtmlBody entries), db)) ∧
  (∀ m p, route_request routes m p ≠ Call (Resolve "manage")) ∧
  (select_url "manage" db = Some u →
   resolve "manage" db = (inr (RedirectResponse u 302), db)).
Proof.
  assert (∀ u0, Row "manage" u0 ∈ db → "manage" ∈ codes db) as Hcodes.
  { intros u0 Hrow. apply elem_of_codes. eauto. }
  split_and!.
  - intros Hfresh. unfold app.
    change (route_request routes _ _) with (Call CreateShortUrl).
    cbn [json_body]. rewrite validate_create_body. unfold serve.
    by rewrite create_short_url_fresh.
  - intros Hrow. exists (select_all_order_by_code db).
    split; [apply manage_page_eq|]. by rewrite select_all_Permutation.
  - intros Hrow%Hcodes. exists (set_url "manage" u' <$> db). split.
    + unfold app.
      change (route_request routes _ _) with (Call (UpdateUrl "manage")).
      cbn [json_body].
      destruct (validate_update_body u') as (d & -> & Hd).
      unfold serve. by rewrite (update_url_present "manage" u').
    + by apply select_url_updated.
  - intros Hrow%Hcodes.
    exists (filter (λ r, ¬ has_code "manage" r) db). split.
    + unfold app.
      change (route_request routes _ _) with (Call (DeleteUrl "manage")).
      unfold serve. by rewrite delete_url_present.
    + apply codes_delete.
  - reflexivity.
  - intros b. exists (select_all_order_by_code db). reflexivity.
  - apply resolve_never_gets_manage.
  - apply resolve_found.
Qed.

Lemma manage_code_is_never_resolved_witness :
  app (Request POST "/shorten" (create_body "manage" "https://m.example")) []
  = (respond (inr (created "manage" "https://m.example")),
     [Row "manage" "https://m.example"]) ∧
  (∃ db', app (Request PUT "/update/manage" (update_body "https://n.example"))
            [Row "manage" "https://m.example"]
          = (respond (inr updated), db') ∧
          select_url "manage" db' = Some "https://n.example") ∧
  resolve "manage" [Row "manage" "https://m.example"]
  = (inr (RedirectResponse "https://m.example" 302),
     [Row "manage" "https://m.example"]).
Proof.
  split_and!.
  - apply (manage_code_is_never_resolved "https://m.example" "" []).
    apply (bool_decide_unpack _). vm_compute. exact I.
  - apply (manage_code_is_never_resolved "https://m.example"
             "https://n.example" [Row "manage" "https://m.example"]).
    left.
  - apply (manage_code_is_never_resolved "https://m.example" ""
             [Row "manage" "https://m.example"]).
    reflexivity.
Defined.

(** ** Two creates at once *)

Section race_facts.
Import Race.













(** A call that runs with no other call in its way does what
    [create_short_url] does. *)
Lemma alone_is_create_short_url (db : table) (d1 d2 : URLCreate.t) :
  ∃ sched w,
    exec sched (start db d1 d2) = Some w ∧
    at_pc (thread1 w) = Returned (fst (create_short_url d1 db)) ∧
    file w = snd (create_short_url d1 db) ∧
    writer w = None ∧
    thread2 w = thread2 (start db d1 d2).
Proof.
  destruct d1 as [c u]. destruct (decide (c ∈ codes db)) as [Hc|Hc].
  - exists [T1; T1]. eexists. rewrite create_short_url_taken by done.
    unfold exec, step, start, execute_insert, insert_urls, view. cbn.
    rewrite decide_True by done. cbn. done.
  - exists [T1; T1; T1]. eexists. rewrite create_short_url_fresh by done.
    unfold exec, step, start, execute_insert, insert_urls, view. cbn.
    rewrite decide_False by done. cbn. done.
Qed.
End race_facts.

Section race_outcome.
Import Race.



End race_outcome.


(** * Further properties of the handlers *)

(** ** Restart *)


(** ** What a single call does *)

Lemma filter_has_code_nil_absent (c : string) (t : table) :
  filter (has_code c) t = [] → c ∉ codes t.
Proof.
  intros Hnil (r & Hr & Hcode)%elem_of_codes.
  assert (r ∈ filter (has_code c) t) as Hin by (by apply list_elem_of_filter).
  rewrite Hnil in Hin. by apply not_elem_of_nil in Hin.
Qed.

(** Every outcome of [update_url], by the payload and the table. *)
Lemma update_url_cases (c : string) (d : gmap string json) (db : table) :
  (d !! "url" = None ∧ update_url c d db = (inl missing_url_field, db)) ∨
  (∃ v e, d !! "url" = Some v ∧ adapt v = inl e ∧
          update_url c d db = (inl e, db)) ∨
  (∃ v w, d !! "url" = Some v ∧ adapt v = inr w ∧ (c ∉ codes db) ∧
          update_url c d db = (inl code_not_found, db)) ∨
  (∃ v w u, d !! "url" = Some v ∧ adapt v = inr w ∧
            text_affinity w = Some u ∧ c ∈ codes db ∧
            update_url c d db = (inr updated, set_url c u <$> db)) ∨
  (∃ v w, d !! "url" = Some v ∧ adapt v = inr w ∧
          text_affinity w = None ∧ c ∈ codes db ∧
          update_url c d db
          = (inl (IntegrityError "NOT NULL constraint failed: urls.url"),
             db)).
Proof.
  destruct (d !! "url") as [v|] eqn:Hd.
  2: { left. split; [done|]. by apply update_url_missing. }
  right. destruct (adapt v) as [e|w] eqn:Hv.
  { left. exists v, e. split_and!; [done..|].
    unfold_handler. by rewrite Hd, Hv. }
  right. destruct (decide (c ∈ codes db)) as [Hc|Hc].
  - right. destruct (text_affinity w) as [u|] eqn:Hw.
    + left. exists v, w, u. split_and!; [done..|].
      destruct (filter_has_code_present c db Hc) as (r & t' & E & _).
      unfold_handler. rewrite Hd, Hv. unfold update_urls. rewrite Hw. cbn.
      by rewrite E.
    + right. exists v, w. split_and!; [done..|].
      destruct (filter_has_code_present c db Hc) as (r & t' & E & _).
      unfold_handler. rewrite Hd, Hv. unfold update_urls. rewrite Hw, E.
      done.
  - left. exists v, w. split_and!; [done..|].
    unfold_handler. rewrite Hd, Hv. unfold update_urls.
    rewrite filter_has_code_absent by done.
    destruct (text_affinity w) as [u|]; cbn; [|done].
    by rewrite set_url_absent.
Qed.

Lemma serve_eq (h : handler) (db : table) :
  serve h db = (respond (fst (h db)), snd (h db)).
Proof. unfold serve. by destruct (h db). Qed.

Lemma filter_has_code_other_set_url (c c' u : string) (t : table) :
  c' ≠ c →
  filter (has_code c') (set_url c u <$> t) = filter (has_code c') t.
Proof.
  intros Hne. induction t as [|r t IH]; [done|].
  rewrite fmap_cons, !filter_cons, IH.
  destruct (decide (has_code c' r)) as [Hr|Hr].
  - assert (set_url c u r = r) as ->.
    { unfold set_url, has_code in *. rewrite decide_False; [done|congruence]. }
    by rewrite decide_True.
  - rewrite decide_False; [done|].
    unfold has_code in *. by rewrite set_url_code.
Qed.

Lemma filter_has_code_other_deleted (c c' : string) (t : table) :
  c' ≠ c →
  filter (has_code c') (filter (λ r, ¬ has_code c r) t)
  = filter (has_code c') t.
Proof.
  intros Hne. induction t as [|r t IH]; [done|].
  rewrite !filter_cons. destruct (decide (has_code c' r)) as [Hr|Hr].
  - rewrite decide_True by (unfold has_code in *; congruence).
    rewrite filter_cons, decide_True by done. by rewrite IH.
  - destruct (decide (¬ has_code c r)); [|done].
    by rewrite filter_cons, decide_False.
Qed.

Lemma set_url_twice (c u1 u2 : string) (t : table) :
  set_url c u2 <$> (set_url c u1 <$> t) = set_url c u2 <$> t.
Proof.
  rewrite <- list_fmap_compose. apply list_fmap_ext. intros _ r _. cbn.
  unfold set_url, has_code. destruct (decide (code r = c)) as [Hr|Hr].
  - cbn. by rewrite decide_True.
  - by rewrite decide_False.
Qed.

(** X2.  [POST /shorten] with a body that carries a string [code] and a
    string [url] (other fields are ignored, and any code is taken, the
    empty one too): when the code is free the answer is 200 with the
    entry echoed back and exactly one row is appended; when the code is
    taken the answer is 400 and the table stays as it is.  A body with no
    [code] or no [url], or no body at all, is answered 422 without
    touching the table. *)
Theorem create_request_outcomes (o : gmap string json) (c u : string)
    (db : table) :
  (o !! "code" = Some (JStr c) → o !! "url" = Some (JStr u) →
   app (Request POST "/shorten" (Some (JObj o))) db
   = if decide (c ∈ codes db)
     then (Response 400 None (JsonBody [("detail", "Code already exists")]),
           db)
     else (Response 200 None
             (JsonBody [("code", c); ("url", u);
                        ("message", "Short URL created successfully")]),
           db ++ [Row c u])) ∧
  (o !! "code" = None ∨ o !! "url" = None →
   app (Request POST "/shorten" (Some (JObj o))) db = (unprocessable, db)) ∧
  app (Request POST "/shorten" None) db = (unprocessable, db).
Proof.
  split_and!.
  - intros Hcode Hurl. unfold app.
    change (route_request routes _ _) with (Call CreateShortUrl).
    cbn [json_body]. unfold validate_URLCreate. rewrite Hcode, Hurl.
    rewrite serve_eq. case_decide.
    + by rewrite create_short_url_taken.
    + by rewrite create_short_url_fresh.
  - intros Hmissing. unfold app.
    change (route_request routes _ _) with (Call CreateShortUrl).
    cbn [json_body]. unfold validate_URLCreate.
    destruct Hmissing as [->| ->]; [done|].
    by destruct (o !! "code") as [[]|].
  - reflexivity.
Qed.

Lemma create_request_outcomes_witness :
  app (Request POST "/shorten"
         (Some (JObj {["code" := JStr ""; "url" := JStr "https://example.com";
                       "note" := JNull]}))) []
  = (Response 200 None
       (JsonBody [("code", ""); ("url", "https://example.com");
                  ("message", "Short URL created successfully")]),
     [Row "" "https://example.com"]) ∧
  app (Request POST "/shorten" (Some (JObj {["code" := JStr "test"]}))) []
  = (unprocessable, []).
Proof.
  split.
  - apply (create_request_outcomes
             {["code" := JStr ""; "url" := JStr "https://example.com";
               "note" := JNull]} "" "https://example.com" []);
      reflexivity.
  - refine (proj1 (proj2 (create_request_outcomes
                            {["code" := JStr "test"]} "" "" [])) _).
    right. reflexivity.
Defined.

(** X3.  A request that is not answered 200 leaves the table exactly as
    it was: a refused create, an update or delete of an unknown code, an
    update with a bad payload, a request that matches no route - none of
    them writes.  (In [update_url] and [delete_url] the commit comes
    before the row count is looked at; what is committed then is a
    statement that touched no row.) *)
Theorem only_successful_requests_write (rq : request) (db : table) :
  status (fst (app rq db)) ≠ 200 → snd (app rq db) = db.
Proof.
  unfold app.
  destruct (route_request routes (method rq) (path rq))
    as [[| | | |c0|c0|c0]| | |]; try done.
  - destruct (validate_URLCreate (json_body rq)) as [[c u]|]; [|done].
    rewrite serve_eq. cbn [fst snd].
    destruct (decide (c ∈ codes db)).
    + by rewrite create_short_url_taken.
    + by rewrite create_short_url_fresh.
  - destruct (validate_dict (json_body rq)) as [d|]; [|done].
    rewrite serve_eq. cbn [fst snd].
    destruct (update_url_cases c0 d db)
      as [[_ ->]|[(?&?&_&_&->)|[(?&?&_&_&_&->)|[(?&?&?&_&_&_&_&->)
                                                |(?&?&_&_&_&_&->)]]]];
      done.
  - rewrite serve_eq. cbn [fst snd].
    destruct (decide (c0 ∈ codes db)).
    + by rewrite delete_url_present.
    + by rewrite delete_url_absent.
  - rewrite serve_eq. cbn [fst snd]. by rewrite resolve_table.
Qed.

Lemma only_successful_requests_write_witness :
  snd (app (Request PUT "/update/test1" (Some (JObj {["url" := JNull]})))
         [Row "test1" "https://example.com"])
  = [Row "test1" "https://example.com"].
Proof.
  apply (only_successful_requests_write
           (Request PUT "/update/test1" (Some (JObj {["url" := JNull]})))
           [Row "test1" "https://example.com"]).
  vm_compute. discriminate.
Defined.

(** ** How calls compose *)

(** X4.  A create, an update or a delete of a code [c] changes nothing
    for any other code [c']: what a lookup of [c'] finds, and so where
    [resolve] sends [c'], is the same before and after, whatever the
    payload and whether the call succeeded or not. *)
Theorem other_codes_untouched (c c' u : string) (d : gmap string json)
    (db : table) :
  c' ≠ c →
  resolve c' (snd (create_short_url (URLCreate.Make c u) db))
  = (fst (resolve c' db), snd (create_short_url (URLCreate.Make c u) db)) ∧
  resolve c' (snd (update_url c d db))
  = (fst (resolve c' db), snd (update_url c d db)) ∧
  resolve c' (snd (delete_url c db))
  = (fst (resolve c' db), snd (delete_url c db)).
Proof.
  intros Hne.
  assert (∀ t, select_url c' t = select_url c' db →
               resolve c' t = (fst (resolve c' db), t)) as Hsame.
  { intros t Ht. unfold_handler. rewrite Ht.
    by destruct (select_url c' db). }
  split_and!; apply Hsame; unfold select_url.
  - rewrite create_short_url_table. cbn. case_decide; [done|].
    rewrite filter_app, filter_cons, decide_False
      by (unfold has_code; cbn; congruence).
    by rewrite filter_nil, app_nil_r.
  - destruct (update_url_cases c d db)
      as [[_ ->]|[(?&?&_&_&->)|[(?&?&_&_&_&->)|[(?&?&?&_&_&_&_&->)
                                                |(?&?&_&_&_&_&->)]]]];
      cbn [snd]; try done.
    by rewrite filter_has_code_other_set_url.
  - rewrite delete_url_table. by rewrite filter_has_code_other_deleted.
Qed.

Lemma other_codes_untouched_witness :
  resolve "test2" (snd (delete_url "test1"
                          [Row "test1" "https://example.com";
                           Row "test2" "https://google.com"]))
  = (fst (resolve "test2" [Row "test1" "https://example.com";
                           Row "test2" "https://google.com"]),
     snd (delete_url "test1"
            [Row "test1" "https://example.com";
             Row "test2" "https://google.com"])).
Proof.
  apply (other_codes_untouched "test1" "test2" "" ∅).
  discriminate.
Defined.

(** X5.  Creating a free code and deleting it again gives back the very
    table one started from: same rows, same order. *)
Theorem create_then_delete_restores (c u : string) (db : table) :
  c ∉ codes db →
  delete_url c (snd (create_short_url (URLCreate.Make c u) db))
  = (inr deleted, db).
Proof.
  intros Hc. rewrite create_short_url_fresh by done. cbn [snd].
  rewrite delete_url_present.
  - f_equal. rewrite filter_app, filter_not_has_code_absent by done.
    rewrite filter_cons, decide_False; [by rewrite filter_nil, app_nil_r|].
    intros Hn. by apply Hn.
  - rewrite codes_app. apply elem_of_app. right. left.
Qed.

Lemma create_then_delete_restores_witness :
  delete_url "workflow"
    (snd (create_short_url (URLCreate.Make "workflow" "https://example.com")
            [Row "a" "https://a.com"]))
  = (inr deleted, [Row "a" "https://a.com"]).
Proof.
  apply (create_then_delete_restores "workflow" "https://example.com").
  apply (bool_decide_unpack _). vm_compute. exact I.
Defined.

(** X6.  A deleted code is free again: whatever the table held, after
    [delete_url c] a create of [c] succeeds, and [c] then resolves to
    the URL of the new entry and to nothing older. *)
Theorem deleted_code_can_be_created_again (c u : string) (db : table) :
  let db1 := snd (delete_url c db) in
  create_short_url (URLCreate.Make c u) db1
  = (inr (created c u), db1 ++ [Row c u]) ∧
  resolve c (db1 ++ [Row c u])
  = (inr (RedirectResponse u 302), db1 ++ [Row c u]).
Proof.
  cbn zeta. rewrite delete_url_table.
  pose proof (codes_delete c db) as Hgone. split.
  - by apply create_short_url_fresh.
  - apply resolve_found. by apply select_url_inserted.
Qed.

(** X7.  An update never changes which codes the table holds, nor
    their order, whatever the payload; and of two updates of the same
    code in a row only the last one shows, when the last one carries a
    URL: updating to [u2] after any other update gives the table that
    updating to [u2] directly gives. *)
Theorem update_keeps_codes_last_wins (c u2 : string)
    (d1 d2 : gmap string json) (db : table) :
  d2 !! "url" = Some (JStr u2) →
  codes (snd (update_url c d1 db)) = codes db ∧
  snd (update_url c d2 (snd (update_url c d1 db)))
  = snd (update_url c d2 db).
Proof.
  intros Hd2. split; [apply update_url_codes|].
  destruct (update_url_cases c d1 db)
    as [[_ ->]|[(?&?&_&_&->)|[(?&?&_&_&_&->)|[(v&w&u1&_&_&_&Hc&->)
                                              |(?&?&_&_&_&_&->)]]]];
    cbn [snd]; try done.
  rewrite (update_url_present c u2 d2 db) by done.
  rewrite (update_url_present c u2 d2) by (by rewrite ?codes_set_url).
  cbn [snd]. apply set_url_twice.
Qed.

Lemma update_keeps_codes_last_wins_witness :
  codes (snd (update_url "github" {["url" := JInt 7]}
                [Row "github" "https://github.com"]))
  = codes [Row "github" "https://github.com"] ∧
  snd (update_url "github" {["url" := JStr "https://gh.io"]}
         (snd (update_url "github" {["url" := JInt 7]}
                 [Row "github" "https://github.com"])))
  = snd (update_url "github" {["url" := JStr "https://gh.io"]}
           [Row "github" "https://github.com"]).
Proof.
  apply (update_keeps_codes_last_wins "github" "https://gh.io").
  reflexivity.
Defined.

(** ** Payloads that are not a URL *)

(** X8.  An update whose payload says [url: null]: for a code that is
    in the table the NOT NULL constraint of the [url] column fails, no
    handler catches the exception, the answer is a plain 500 and the
    entry keeps its URL; for a code that is not in the table no row is
    touched and the answer is the usual 404. *)
Theorem update_with_null_url (c : string) (d : gmap string json)
    (db : table) :
  d !! "url" = Some JNull →
  (c ∈ codes db →
   update_url c d db
   = (inl (IntegrityError "NOT NULL constraint failed: urls.url"), db) ∧
   fst (serve (update_url c d) db)
   = Response 500 None (TextBody "Internal Server Error")) ∧
  (c ∉ codes db → update_url c d db = (inl code_not_found, db)).
Proof.
  intros Hd.
  destruct (update_url_cases c d db)
    as [[Hd' _]|[(v&e&Hd'&Hv&_)|[(v&w&Hd'&Hv&Hc&Hup)
        |[(v&w&u&Hd'&Hv&Hw&_&_)|(v&w&Hd'&Hv&Hw&Hc&Hup)]]]];
    rewrite Hd in Hd'; simplify_eq; cbn in *; simplify_eq.
  - split; [done|]. by intros _.
  - split; [|done]. intros _. split; [done|].
    rewrite serve_eq, Hup. done.
Qed.

Lemma update_with_null_url_witness :
  update_url "test1" {["url" := JNull]} [Row "test1" "https://example.com"]
  = (inl (IntegrityError "NOT NULL constraint failed: urls.url"),
     [Row "test1" "https://example.com"]) ∧
  fst (serve (update_url "test1" {["url" := JNull]})
         [Row "test1" "https://example.com"])
  = Response 500 None (TextBody "Internal Server Error").
Proof.
  refine (proj1 (update_with_null_url "test1" {["url" := JNull]}
                   [Row "test1" "https://example.com"] _) _).
  - reflexivity.
  - left.
Defined.

(** ** Which request reaches which handler *)

Lemma strip_prefix_Some (pre p r : string) :
  strip_prefix pre p = Some r → p = pre +:+ r.
Proof.
  revert p. induction pre as [|a pre IH]; intros p; cbn.
  - by intros [= ->].
  - destruct p as [|b p]; [done|]. case_decide; [|done].
    intros ->%IH. by subst.
Qed.


Lemma match_path_Literal (l p c : string) :
  match_path (Literal l) p = Some c → p = l.
Proof. cbn. by case_decide. Qed.

Lemma match_path_WithCode (pre p c : string) :
  match_path (WithCode pre) p = Some c → p = pre +:+ c ∧ segment c.
Proof.
  cbn. destruct (strip_prefix pre p) as [c'|] eqn:Hstrip; [|done].
  case_decide; [done|]. destruct (has_slash c') eqn:Hs; [done|].
  intros [= <-]. split; [by apply strip_prefix_Some|done].
Qed.

(** What a call of a handler tells about the request. *)
Lemma route_request_inv (m : http_method) (p : string) (e : endpoint) :
  route_request routes m p = Call e →
  match e with
  | Documentation =>
      (m = GET ∨ m = HEAD) ∧
      p ∈ ["/openapi.json"; "/docs"; "/docs/oauth2-redirect"; "/redoc"]
  | ReadRoot => m = GET ∧ p = "/"
  | ManagePage => m = GET ∧ p = "/manage"
  | CreateShortUrl => m = POST ∧ p = "/shorten"
  | UpdateUrl c => m = PUT ∧ p = "/update/" +:+ c ∧ segment c
  | DeleteUrl c => m = DELETE ∧ p = "/delete/" +:+ c ∧ segment c
  | Resolve c => m = GET ∧ p = "/" +:+ c ∧ segment c
  end.
Proof.
  intros (r & Hin & Hfull)%route_request_Call.
  apply matches_FULL in Hfull as (c & Hpath & Hm & ->).
  unfold routes, default_routes, app_routes in Hin. cbn in Hin.
  repeat (apply elem_of_cons in Hin as [->|Hin]);
    cbn [route_path route_endpoint route_methods] in *;
    try (by apply not_elem_of_nil in Hin);
    try (apply match_path_Literal in Hpath as ->);
    try (apply match_path_WithCode in Hpath as [-> Hseg]);
    repeat (apply elem_of_cons in Hm as [->|Hm]);
    try (by apply not_elem_of_nil in Hm);
    auto.
  all: split; [auto|apply (bool_decide_unpack _); vm_compute; exact I].
Qed.



(** X11.  A server error (a 5xx answer) can only come from
    [PUT /update/{code}] with a payload whose [url] field is missing or
    is not a string; creating, deleting, resolving and listing never
    answer with one, and neither does an update that carries a URL. *)
Theorem server_errors_only_from_update (rq : request) (db : table) :
  is_server_error (fst (app rq db)) →
  ∃ c d,
    method rq = PUT ∧ path rq = "/update/" +:+ c ∧
    validate_dict (json_body rq) = Some d ∧
    ∀ u, d !! "url" ≠ Some (JStr u).
Proof.
  pose proof (route_request_inv (method rq) (path rq)) as Hinv.
  unfold app, is_server_error.
  destruct (route_request routes (method rq) (path rq))
    as [[| | | |c|c|c]| | |]; try specialize (Hinv _ eq_refl);
    cbn in Hinv; try (cbn; lia).
  - destruct (validate_URLCreate (json_body rq)) as [[c u]|]; [|cbn; lia].
    rewrite serve_eq. cbn [fst].
    destruct (decide (c ∈ codes db)).
    + rewrite create_short_url_taken by done. cbn. lia.
    + rewrite create_short_url_fresh by done. cbn. lia.
  - destruct (validate_dict (json_body rq)) as [d|]; [|cbn; lia].
    rewrite serve_eq. cbn [fst]. intros Hstatus.
    destruct Hinv as (Hm & Hp & _). exists c, d. split_and!; [done..|].
    intros u Hd. destruct (decide (c ∈ codes db)).
    + rewrite (update_url_present c u) in Hstatus by done.
      cbn in Hstatus. lia.
    + rewrite (update_url_absent c u) in Hstatus by done.
      cbn in Hstatus. lia.
  - rewrite serve_eq. cbn [fst]. destruct (decide (c ∈ codes db)).
    + rewrite delete_url_present by done. cbn. lia.
    + rewrite delete_url_absent by done. cbn. lia.
  - rewrite serve_eq. cbn [fst]. unfold_handler.
    destruct (select_url c db); cbn; lia.
Qed.

Lemma server_errors_only_from_update_witness :
  ∃ c d,
    PUT = PUT ∧ "/update/test1" = "/update/" +:+ c ∧
    validate_dict (Some (JObj ∅)) = Some d ∧
    ∀ u, d !! "url" ≠ Some (JStr u).
Proof.
  apply (server_errors_only_from_update
           (Request PUT "/update/test1" (Some (JObj ∅)))
           [Row "test1" "https://example.com"]).
  unfold is_server_error. vm_compute. split; [discriminate|reflexivity].
Defined.

Lemma app_keeps_other_rows (c u : string) (rq : request) (db : table) :
  ¬ segment c → Row c u ∈ db → Row c u ∈ snd (app rq db).
Proof.
  intros Hc Hrow.
  pose proof (route_request_inv (method rq) (path rq)) as Hinv.
  unfold app.
  destruct (route_request routes (method rq) (path rq))
    as [[| | | |c0|c0|c0]| | |]; try specialize (Hinv _ eq_refl);
    cbn in Hinv; try done.
  - destruct (validate_URLCreate (json_body rq)) as [d|]; [|done].
    rewrite serve_eq, create_short_url_table. cbn.
    case_decide; [done|]. apply elem_of_app. by left.
  - destruct (validate_dict (json_body rq)) as [d|]; [|done].
    rewrite serve_eq. cbn [snd].
    destruct Hinv as (_ & _ & Hseg).
    assert (c ≠ c0) as Hne by (intros ->; done).
    destruct (update_url_cases c0 d db)
      as [[_ ->]|[(?&?&_&_&->)|[(?&?&_&_&_&->)|[(?&?&u'&_&_&_&_&->)
                                                |(?&?&_&_&_&_&->)]]]];
      cbn [snd]; try done.
    apply list_elem_of_fmap. exists (Row c u). split; [|done].
    unfold set_url, has_code. by rewrite decide_False.
  - rewrite serve_eq, delete_url_table. cbn [snd].
    destruct Hinv as (_ & _ & Hseg).
    apply list_elem_of_filter. split; [|done].
    unfold has_code. cbn. by intros ->.
  - by rewrite serve_eq, resolve_table.
Qed.

(** X12.  An entry whose code is empty or has a [/] in it (a create
    takes any code) is out of reach afterwards: no request makes the
    router call [resolve], [update_url] or [delete_url] with that code,
    and whatever requests are served, the entry is still in the table
    with the URL it was created with. *)
Theorem unroutable_entries_stay (c u : string) (rqs : list request)
    (db : table) :
  c = "" ∨ has_slash c = true →
  Row c u ∈ db →
  (∀ m p, route_request routes m p ≠ Call (Resolve c) ∧
          route_request routes m p ≠ Call (UpdateUrl c) ∧
          route_request routes m p ≠ Call (DeleteUrl c)) ∧
  Row c u ∈ run rqs db.
Proof.
  intros Hc Hrow.
  assert (¬ segment c) as Hseg.
  { intros [Hne Hs]. destruct Hc as [->|Hc]; [done|congruence]. }
  split.
  - intros m p.
    split_and!; intros Hcall%route_request_inv; by destruct Hcall as (_&_&?).
  - unfold run. revert db Hrow.
    induction rqs as [|rq rqs IH]; intros db Hrow; [done|].
    cbn. by apply IH, app_keeps_other_rows.
Qed.

Lemma unroutable_entries_stay_witness :
  Row "a/b" "https://example.com"
  ∈ run [Request DELETE "/delete/a/b" None;
         Request PUT "/update/a/b" (update_body "https://other.com")]
      [Row "a/b" "https://example.com"].
Proof.
  refine (proj2 (unroutable_entries_stay "a/b" "https://example.com" _
                   [Row "a/b" "https://example.com"] _ _)).
  - right. reflexivity.
  - left.
Defined.

















(** ** The listing and the lookups *)

Lemma select_url_row (c u : string) (t : table) :
  unique_codes t → (Row c u ∈ t ↔ select_url c t = Some u).
Proof.
  intros Hnd. unfold select_url. split.
  - intros Hrow.
    assert (Row c u ∈ filter (has_code c) t) as Hin
      by (by apply list_elem_of_filter).
    destruct (filter (has_code c) t) as [|r t'] eqn:E.
    { by apply not_elem_of_nil in Hin. }
    assert (r ∈ filter (has_code c) t) as Hr by (rewrite E; left).
    apply list_elem_of_filter in Hr as [Hcode Hr].
    assert (r = Row c u) as -> by (by apply (unique_codes_row t)).
    done.
  - destruct (filter (has_code c) t) as [|r t'] eqn:E; [done|].
    cbn. intros [= <-].
    assert (r ∈ filter (has_code c) t) as Hr by (rewrite E; left).
    apply list_elem_of_filter in Hr as [Hcode Hr].
    unfold has_code in Hcode. destruct r as [c' u']. cbn in *. by subst.
Qed.

(** X14.  On a table whose codes are unique (every table the
    application reaches is one), the management page and [resolve]
    agree: the page lists each code once, an entry is on the page
    exactly when a lookup of its code finds its URL, and every listed
    entry resolves with a 302 to the URL shown for it. *)
Theorem listing_agrees_with_resolve (c u : string) (db : table) :
  unique_codes db →
  ∃ entries,
    manage_page db = (inr (HTMLResponse entries), db) ∧
    unique_codes entries ∧
    (Row c u ∈ entries ↔ select_url c db = Some u) ∧
    (Row c u ∈ entries →
     resolve c db = (inr (RedirectResponse u 302), db)).
Proof.
  intros Hnd. exists (select_all_order_by_code db).
  assert (Row c u ∈ select_all_order_by_code db ↔ select_url c db = Some u)
    as Hiff.
  { rewrite select_all_Permutation. by apply select_url_row. }
  split_and!.
  - apply manage_page_eq.
  - unfold unique_codes, codes. by rewrite select_all_Permutation.
  - exact Hiff.
  - intros Hin%Hiff. by apply resolve_found.
Qed.

Lemma listing_agrees_with_resolve_witness :
  ∃ entries,
    manage_page [Row "b" "https://b.com"; Row "a" "https://a.com"]
    = (inr (HTMLResponse entries),
       [Row "b" "https://b.com"; Row "a" "https://a.com"]) ∧
    unique_codes entries ∧
    (Row "a" "https://a.com" ∈ entries
     ↔ select_url "a" [Row "b" "https://b.com"; Row "a" "https://a.com"]
       = Some "https://a.com") ∧
    (Row "a" "https://a.com" ∈ entries →
     resolve "a" [Row "b" "https://b.com"; Row "a" "https://a.com"]
     = (inr (RedirectResponse "https://a.com" 302),
        [Row "b" "https://b.com"; Row "a" "https://a.com"])).
Proof.
  apply (listing_agrees_with_resolve "a" "https://a.com").
  apply (bool_decide_unpack _). vm_compute. exact I.
Defined.

(** ** Any two creates at once *)

Section serial_facts.
Import Race.

Lemma outcome_alone_fresh (d : URLCreate.t) (f : table) :
  URLCreate.code d ∉ codes f →
  outcome_alone d f = inr (created (URLCreate.code d) (URLCreate.url d)).
Proof.
  intros Hc. destruct d as [c u]. unfold outcome_alone.
  by rewrite create_short_url_fresh.
Qed.

Lemma outcome_alone_taken (d : URLCreate.t) (f : table) :
  URLCreate.code d ∈ codes f → outcome_alone d f = inl duplicate_code.
Proof.
  intros Hc. destruct d as [c u]. unfold outcome_alone.
  by rewrite create_short_url_taken.
Qed.

Lemma table_alone_fresh (d : URLCreate.t) (f : table) :
  URLCreate.code d ∉ codes f →
  table_alone d f = f ++ [Row (URLCreate.code d) (URLCreate.url d)].
Proof.
  intros Hc. destruct d as [c u]. unfold table_alone.
  by rewrite create_short_url_fresh.
Qed.

Lemma table_alone_taken (d : URLCreate.t) (f : table) :
  URLCreate.code d ∈ codes f → table_alone d f = f.
Proof.
  intros Hc. destruct d as [c u]. unfold table_alone.
  by rewrite create_short_url_taken.
Qed.

Ltac step_any H :=
  unfold step, execute_insert, insert_urls, commit_session, close, release,
    view in H;
  cbn [get put thread1 thread2 at_pc url_data txn writer file
       disk pending default] in H.

Ltac norm_alone :=
  repeat match goal with
  | H : URLCreate.code ?d ∉ codes ?f |- _ =>
      progress (rewrite ?(table_alone_fresh d f H),
                        ?(outcome_alone_fresh d f H) in * )
  | H : URLCreate.code ?d ∈ codes ?f |- _ =>
      progress (rewrite ?(table_alone_taken d f H),
                        ?(outcome_alone_taken d f H) in * )
  end.

Ltac serial_done :=
  cbn [get other pick put file writer thread1 thread2 disk pending];
  unfold waiting, holding, past; norm_alone;
  first [ done | by left | by right ].

Ltac pick_serial :=
  first
    [ by (apply serial_start; serial_done)
    | by (apply (serial_first_holding _ _ _ _ T1); serial_done)
    | by (apply (serial_first_holding _ _ _ _ T2); serial_done)
    | by (apply (serial_first_past _ _ _ _ T1); serial_done)
    | by (apply (serial_first_past _ _ _ _ T2); serial_done)
    | by (apply (serial_second_holding _ _ _ _ T1); serial_done)
    | by (apply (serial_second_holding _ _ _ _ T2); serial_done)
    | by (apply (serial_both_past _ _ _ _ T1); serial_done)
    | by (apply (serial_both_past _ _ _ _ T2); serial_done) ].

(** The bookkeeping is kept by every step of either call. *)
Lemma serial_step (db : table) (d1 d2 : URLCreate.t) (k : tid)
    (w w' : world) :
  serial db d1 d2 w → step k w = Some w' → serial db d1 d2 w'.
Proof.
  intros Hw Hstep. destruct w as [f l th1 th2].
  destruct Hw as [Hl Hf H1 H2|i Hl Hf Hi Hj|i Hl Hf Hi Hj|i Hl Hf Hi Hj
                  |i Hl Hf Hi Hj];
    try destruct i; destruct k;
    unfold waiting, holding, past in *;
    cbn [get other pick file writer thread1 thread2] in *;
    destruct_or?; destruct_and?; subst;
    step_any Hstep; try done;
    repeat case_decide; simplify_eq; norm_alone; pick_serial.
Qed.

Lemma serial_exec (db : table) (d1 d2 : URLCreate.t) (sched : list tid)
    (w w' : world) :
  serial db d1 d2 w → exec sched w = Some w' → serial db d1 d2 w'.
Proof.
  revert w. induction sched as [|k sched IH]; intros w Hw; cbn.
  - by intros [= <-].
  - destruct (step k w) as [w1|] eqn:Hstep; [|done].
    apply IH. by eapply serial_step.
Qed.

Lemma reachable_serial (db : table) (d1 d2 : URLCreate.t) (w : world) :
  reachable db d1 d2 w → serial db d1 d2 w.
Proof.
  intros [sched Hexec]. eapply serial_exec; [|exact Hexec].
  by apply serial_start.
Qed.


(** The table in the file is at every moment one that the two calls
    could have produced one after the other. *)
Lemma serial_file (db : table) (d1 d2 : URLCreate.t) (w : world) :
  serial db d1 d2 w →
  ∃ i, file w = db ∨ file w = table_alone (pick i d1 d2) db ∨
       file w = table_alone (pick (other i) d1 d2)
                  (table_alone (pick i d1 d2) db).
Proof.
  intros [Hl Hf H1 H2|i Hl Hf Hi Hj|i Hl Hf Hi Hj|i Hl Hf Hi Hj
          |i Hl Hf Hi Hj]; [exists T1|exists i..]; auto.
Qed.


End serial_facts.

Section serial_outcome.
Import Race.







(** X18.  Uniqueness of codes holds at every moment of two creates at
    once: started on a table with unique codes, the table in the file
    has unique codes in every world the two calls can reach, finished
    or not, whatever their codes. *)
Theorem concurrent_creates_keep_codes_unique (d1 d2 : URLCreate.t)
    (db : table) (w : world) :
  unique_codes db → reachable db d1 d2 w → unique_codes (file w).
Proof.
  intros Hnd Hw%reachable_serial.
  destruct (serial_file _ _ _ _ Hw) as [i [->|[->| ->]]];
    unfold table_alone; auto using create_short_url_unique.
Qed.

Lemma concurrent_creates_keep_codes_unique_witness :
  unique_codes [Row "a" "https://a.com"; Row "b" "https://b.com"].
Proof.
  apply (concurrent_creates_keep_codes_unique
           (URLCreate.Make "a" "https://other.com")
           (URLCreate.Make "b" "https://b.com")
           [Row "a" "https://a.com"]
           (World [Row "a" "https://a.com"; Row "b" "https://b.com"] None
              (Thread (URLCreate.Make "a" "https://other.com")
                 AtExecute None)
              (Thread (URLCreate.Make "b" "https://b.com")
                 (AtClose (inr (created "b" "https://b.com"))) None))).
  - apply (bool_decide_unpack _). vm_compute. exact I.
  - exists [T2; T2]. vm_compute. reflexivity.
Defined.
End serial_outcome.
